(** * HelloOpenCL: the host program of [main.c], embedded and verified

    The program is one C file: [getBundleResourcePath], [validate] and
    [main].  [main] is a straight line of OpenCL host-API calls with an
    error exit after each of them.  The embedding keeps the shape of the C
    code: a small monad carries the host heap (the two [malloc]ed float
    arrays), the sequence of observable events (API calls, releases and
    [printf]s) and the three ways a C statement can leave a block
    ([return], [goto cleanup], or falling through).

    The OpenCL runtime, CoreFoundation and the file system are outside the
    program; a [world] record fixes what each of their calls answers. *)

From Stdlib Require Import ZArith Lia Ascii String.
From Stdlib Require Import Floats.SpecFloat.
From stdpp Require Import base option list gmap strings.

Local Open Scope string_scope.
Local Open Scope list_scope.
Local Open Scope Z_scope.

(** ** 32-bit floats ([cl_float])

    IEEE-754 binary32, on the Standard Library's executable specification of
    floating-point numbers: 24 bits of precision, exponents below 128. *)

Module F32.

Definition prec : Z := 24.
Definition emax : Z := 128.

Definition cl_float : Type := spec_float.

(** [(float)i] for an [int] i: rounding to nearest, ties to even. *)
Definition of_int (i : Z) : cl_float := binary_normalize prec emax i 0 false.

(** [x * y] on floats. *)
Definition mul (x y : cl_float) : cl_float := SFmul prec emax x y.

(** [x == y] and [x != y] on floats; a NaN is different from everything. *)
Definition eqb (x y : cl_float) : bool := SFeqb x y.
Definition neb (x y : cl_float) : bool := negb (SFeqb x y).

End F32.

Export F32.

(** ** Constants of the source *)

Definition NUM_VALUES : nat := 1024.
Definition CL_SUCCESS : Z := 0.
Definition NUL : ascii := "000"%char.

(** ** Observable events *)

(** The six OpenCL objects [main] holds, named after its variables. *)
Inductive resource : Type :=
| Context | Queue | Program | Kernel | Mem_in | Mem_out.

Inductive device_type : Type := CL_DEVICE_TYPE_GPU | CL_DEVICE_TYPE_CPU.

Inductive mem_flag : Type :=
| CL_MEM_READ_ONLY | CL_MEM_WRITE_ONLY | CL_MEM_COPY_HOST_PTR.

(** A block of the host heap. *)
Definition loc : Type := nat.

(** The OpenCL entry points [main] calls, with the arguments that matter. *)
Inductive api_call : Type :=
| clGetPlatformIDs
| clGetDeviceIDs (ty : device_type)
| clGetDeviceInfo
| clCreateContext
| clCreateCommandQueue
| clCreateProgramWithSource (source : string)
| clBuildProgram
| clGetProgramBuildInfo (param_value_size : nat)
| clCreateKernel (name : string)
| clCreateBuffer (dst : resource) (flags : list mem_flag) (host_ptr : option loc)
| clSetKernelArg (index : nat) (arg : resource)
| clEnqueueNDRangeKernel (global_size : nat)
| clEnqueueReadBuffer (src : resource) (blocking : bool) (dst : loc).

Inductive printf_arg : Type :=
| AInt (z : Z)
| AStr (s : string)
| AFloat (f : cl_float).

(** [Call c r]: the call [c] was made and answered the status [r].
    [Release r]: [clReleaseMemObject], [clReleaseKernel], [clReleaseProgram],
    [clReleaseCommandQueue] or [clReleaseContext], by the kind of [r].
    [Printf fmt args]: a [printf] or [fprintf(stdout, ...)]; the format is
    kept as the source writes it. *)
Inductive event : Type :=
| Call (c : api_call) (status : Z)
| Release (r : resource)
| Printf (fmt : string) (args : list printf_arg)
| Fflush.

#[global] Instance resource_eq_dec : EqDecision resource.
Proof. solve_decision. Defined.

#[global] Instance cl_float_eq_dec : EqDecision cl_float.
Proof. unfold cl_float. solve_decision. Defined.

(** ** The world outside the program *)

Record world : Type := {
  (* OpenCL statuses, one per call site *)
  platform_status : Z;
  device_status : device_type -> Z;
  device_info_status : Z;
  (* the C string in [device_name] after [clGetDeviceInfo] *)
  device_name : string;
  context_status : Z;
  queue_status : Z;
  program_status : string -> Z;
  build_status : string -> Z;
  build_log : string -> string;
  kernel_status : Z;
  mem_in_status : Z;
  mem_out_status : Z;
  set_arg_status : nat -> Z;
  enqueue_status : Z;
  read_status : Z;
  (* what the device's output buffer holds when it is read back *)
  device_result : nat -> cl_float;
  (* CoreFoundation: resource name to URL, URL to file-system path *)
  bundle_resource_url : string -> option string;
  url_file_system_path : string -> option string;
  (* the file system: path to text *)
  file_text : string -> option string;
  (* what a fresh [malloc]ed block happens to hold *)
  indeterminate : loc -> nat -> cl_float;
  indeterminate_chars : nat -> string
}.

(** ** Program state and the statement monad *)

Record state : Type := {
  heap : gmap loc (list cl_float);
  next_block : loc;
  trace : list event
}.

Definition initial_state : state :=
  {| heap := ∅; next_block := O; trace := [] |}.

(** How a statement ends: it falls through with a value, it [return]s, it
    jumps to the [cleanup] label, or its behaviour is undefined (a read or
    write outside a block). *)
Inductive outcome (A : Type) : Type :=
| Val (a : A)
| Return (code : Z)
| Goto_cleanup
| Undefined.

Arguments Val {A} a.
Arguments Return {A} code.
Arguments Goto_cleanup {A}.
Arguments Undefined {A}.

Definition M (A : Type) : Type := state -> outcome A * state.

Definition ret {A} (a : A) : M A := fun s => (Val a, s).

Definition bind {A B} (m : M A) (k : A -> M B) : M B := fun s =>
  match m s with
  | (Val a, s') => k a s'
  | (Return c, s') => (Return c, s')
  | (Goto_cleanup, s') => (Goto_cleanup, s')
  | (Undefined, s') => (Undefined, s')
  end.

Declare Scope stmt_scope.
Delimit Scope stmt_scope with stmt.
Bind Scope stmt_scope with M.
Notation "x <- m ;; k" := (bind m (fun x => k))
  (at level 100, m at next level, right associativity) : stmt_scope.
Notation "m ;; k" := (bind m (fun _ => k))
  (at level 100, right associativity) : stmt_scope.
Local Open Scope stmt_scope.

Definition return_ {A} (code : Z) : M A := fun s => (Return code, s).
Definition goto_cleanup {A} : M A := fun s => (Goto_cleanup, s).
Definition undefined {A} : M A := fun s => (Undefined, s).

(** [if (c) { body }] *)
Definition when (c : bool) (body : M unit) : M unit :=
  if c then body else ret tt.

(** The block that ends at the [cleanup:] label: a [goto cleanup] inside it
    lands at its end. *)
Definition until_cleanup (body : M unit) : M unit := fun s =>
  match body s with
  | (Goto_cleanup, s') => (Val tt, s')
  | r => r
  end.

(** A call of a C function: the callee's [return] is the call's value. *)
Definition call (body : M unit) : M Z := fun s =>
  match body s with
  | (Return v, s') => (Val v, s')
  | (_, s') => (Undefined, s')
  end.

(** [for (int i = 0; i < n; i++) body], as [for_each (seq 0 n) body]. *)
Fixpoint for_each (range : list nat) (body : nat -> M unit) : M unit :=
  match range with
  | [] => ret tt
  | i :: rest => body i ;; for_each rest body
  end.

Definition emit (e : event) : M unit := fun s =>
  (Val tt, {| heap := heap s; next_block := next_block s;
              trace := trace s ++ [e] |}).

Definition printf (fmt : string) (args : list printf_arg) : M unit :=
  emit (Printf fmt args).

Definition fflush : M unit := emit Fflush.

Definition release (r : resource) : M unit := emit (Release r).

(** An API call that answers [status]. *)
Definition api (c : api_call) (status : Z) : M Z :=
  emit (Call c status) ;; ret status.

(** [err != CL_SUCCESS] *)
Definition failed (err : Z) : bool := negb (err =? CL_SUCCESS).

(** *** The host heap *)

Definition set_heap (h : gmap loc (list cl_float)) (s : state) : state :=
  {| heap := h; next_block := next_block s; trace := trace s |}.

(** [malloc(sizeof(float) * n)] with the contents [init] the block happens
    to have. *)
Definition malloc (init : loc -> list cl_float) : M loc := fun s =>
  let l := next_block s in
  (Val l, {| heap := <[l := init l]> (heap s); next_block := S l;
             trace := trace s |}).

Definition free (p : loc) : M unit := fun s =>
  match heap s !! p with
  | Some _ => (Val tt, set_heap (delete p (heap s)) s)
  | None => (Undefined, s)
  end.

(** [p[i]] *)
Definition load (p : loc) (i : nat) : M cl_float := fun s =>
  match heap s !! p with
  | Some block =>
      match block !! i with
      | Some v => (Val v, s)
      | None => (Undefined, s)
      end
  | None => (Undefined, s)
  end.

(** [p[i] = v] *)
Definition store (p : loc) (i : nat) (v : cl_float) : M unit := fun s =>
  match heap s !! p with
  | Some block =>
      if decide (i < length block)%nat
      then (Val tt, set_heap (<[p := <[i := v]> block]> (heap s)) s)
      else (Undefined, s)
  | None => (Undefined, s)
  end.

(** [memcpy]-like write of a whole array into the block [p]. *)
Definition write_block (p : loc) (data : list cl_float) : M unit := fun s =>
  match heap s !! p with
  | Some block =>
      if decide (length data <= length block)%nat
      then (Val tt, set_heap (<[p := data ++ drop (length data) block]> (heap s)) s)
      else (Undefined, s)
  | None => (Undefined, s)
  end.

(** ** C strings *)

(** What [printf("%s", buf)] prints: the characters of [buf] before its
    first NUL. *)
Fixpoint c_string (buf : string) : string :=
  match buf with
  | EmptyString => EmptyString
  | String c rest => if Ascii.eqb c NUL then EmptyString else String c (c_string rest)
  end.

Fixpoint has_nul (s : string) : bool :=
  match s with
  | EmptyString => false
  | String c rest => Ascii.eqb c NUL || has_nul rest
  end.

(** ** [getBundleResourcePath] (main.c, lines 17-39)

    [CFBundleCopyResourceURL] answers a URL or NULL;
    [CFURLGetFileSystemRepresentation] fills [path] and answers whether it
    could.  The function returns the path, or NULL. *)

Definition getBundleResourcePath (w : world) (filename : string) : option string :=
  match bundle_resource_url w filename with
  | None => None
  | Some fileURL =>
      match url_file_system_path w fileURL with
      | None => None
      | Some path => Some path
      end
  end.

(** ** [validate] (main.c, lines 41-51) *)

(** The body of the [for] loop, at index [i]. *)
Definition validate_iteration (input output : loc) (i : nat) : M unit :=
  o <- load output i ;;
  x <- load input i ;;
  when (neb o (mul x x)) (
    printf "Error: Element %d did not match expected output.\n"
           [AInt (Z.of_nat i)] ;;
    o' <- load output i ;;
    x' <- load input i ;;
    printf "Saw %1.4f, expected %1.4f\n" [AFloat o'; AFloat (mul x' x')] ;;
    fflush ;;
    return_ 0).

Definition validate (input output : loc) : M unit :=
  for_each (seq 0 NUM_VALUES) (validate_iteration input output) ;;
  return_ 1.

(** ** The host arrays of [main] *)

(** A block of [NUM_VALUES] floats as [malloc] hands it out: its contents
    are whatever the world had there. *)
Definition fresh_block (w : world) (l : loc) : list cl_float :=
  map (indeterminate w l) (seq 0 NUM_VALUES).

(** [test_in] after the loop of lines 153-155. *)
Definition input_data : list cl_float :=
  map (fun i => of_int (Z.of_nat i)) (seq 0 NUM_VALUES).

(** The [NUM_VALUES] floats of the device's output buffer. *)
Definition output_data (w : world) : list cl_float :=
  map (device_result w) (seq 0 NUM_VALUES).

(** ** The OpenCL calls that do more than answer a status *)

Definition CL_INVALID_VALUE : Z := -30.

(** [clGetProgramBuildInfo(program, device, CL_PROGRAM_BUILD_LOG, size, buf,
    &size_ret)], by the contract of the OpenCL runtime: the log is a
    NUL-terminated string; with [buf = NULL] only the needed size is
    answered; a buffer that is too small is refused and left as it was.
    Result: status, buffer afterwards, needed size. *)
Definition get_build_log (w : world) (source : string)
    (size : nat) (buf : option string) : M (option string * nat) :=
  let log := build_log w source in
  let needed := S (String.length log) in
  match buf with
  | None =>
      api (clGetProgramBuildInfo size) CL_SUCCESS ;; ret (None, needed)
  | Some old =>
      if (size <? needed)%nat
      then api (clGetProgramBuildInfo size) CL_INVALID_VALUE ;; ret (Some old, needed)
      else api (clGetProgramBuildInfo size) CL_SUCCESS ;;
           ret (Some (log +:+ String NUL EmptyString), needed)
  end.

(** [clEnqueueReadBuffer(queue, mem, CL_TRUE, 0, sizeof(float) * NUM_VALUES,
    dst, ...)]: on success the device's [NUM_VALUES] floats are in [dst]
    when the call returns. *)
Definition enqueue_read_buffer (w : world) (src : resource) (dst : loc) : M Z :=
  err <- api (clEnqueueReadBuffer src true dst) (read_status w) ;;
  when (err =? CL_SUCCESS)
       (write_block dst (output_data w)) ;;
  ret err.

(** ** [main] (main.c, lines 53-220) *)

Definition main (w : world) : M unit :=
  (* Get platform *)
  err <- api clGetPlatformIDs (platform_status w) ;;
  when (failed err) (
    printf "Error getting platform: %d\n" [AInt err] ;;
    return_ 1) ;;
  (* Get device (try GPU first, then CPU) *)
  err <- api (clGetDeviceIDs CL_DEVICE_TYPE_GPU) (device_status w CL_DEVICE_TYPE_GPU) ;;
  when (failed err) (
    printf "No GPU found, trying CPU...\n" [] ;;
    err <- api (clGetDeviceIDs CL_DEVICE_TYPE_CPU) (device_status w CL_DEVICE_TYPE_CPU) ;;
    when (failed err) (
      printf "No OpenCL devices found\n" [] ;;
      return_ 1)) ;;
  (* Print device name *)
  api clGetDeviceInfo (device_info_status w) ;;
  printf "Using device: %s\n" [AStr (device_name w)] ;;
  (* Create context *)
  err <- api clCreateContext (context_status w) ;;
  when (failed err) (
    printf "Error creating context: %d\n" [AInt err] ;;
    return_ 1) ;;
  (* Create command queue *)
  err <- api clCreateCommandQueue (queue_status w) ;;
  when (failed err) (
    printf "Error creating command queue: %d\n" [AInt err] ;;
    release Context ;;
    return_ 1) ;;
  (* Read the kernel source from the file *)
  let kernel_file := "kernel.cl" in
  kernel_source <-
    match getBundleResourcePath w kernel_file with
    | None =>
        printf "Could not find %s in bundle\n" [AStr kernel_file] ;;
        release Queue ;;
        release Context ;;
        return_ 1
    | Some path => ret path
    end ;;
  (* Create program *)
  err <- api (clCreateProgramWithSource kernel_source) (program_status w kernel_source) ;;
  when (failed err) (
    printf "Error creating program: %d\n" [AInt err] ;;
    release Queue ;;
    release Context ;;
    return_ 1) ;;
  (* Build program *)
  err <- api clBuildProgram (build_status w kernel_source) ;;
  when (failed err) (
    printf "Error building program: %d\n" [AInt err] ;;
    (* Print build log *)
    r <- get_build_log w kernel_source 0 None ;;
    let log_size := snd r in
    let log := Some (indeterminate_chars w log_size) in
    r <- get_build_log w kernel_source log_size log ;;
    match fst r with
    | Some log => printf "Build log:\n%s\n" [AStr (c_string log)]
    | None => undefined
    end ;;
    release Program ;;
    release Queue ;;
    release Context ;;
    return_ 1) ;;
  (* Create kernel *)
  err <- api (clCreateKernel "square") (kernel_status w) ;;
  when (failed err) (
    printf "Error creating kernel: %d\n" [AInt err] ;;
    release Program ;;
    release Queue ;;
    release Context ;;
    return_ 1) ;;
  (* Create test data *)
  test_in <- malloc (fresh_block w) ;;
  test_out <- malloc (fresh_block w) ;;
  for_each (seq 0 NUM_VALUES) (fun i =>
    store test_in i (of_int (Z.of_nat i))) ;;
  until_cleanup (
    (* Create OpenCL buffers *)
    err <- api (clCreateBuffer Mem_in [CL_MEM_READ_ONLY; CL_MEM_COPY_HOST_PTR]
                               (Some test_in))
               (mem_in_status w) ;;
    when (failed err) (
      printf "Error creating input buffer: %d\n" [AInt err] ;;
      goto_cleanup) ;;
    err <- api (clCreateBuffer Mem_out [CL_MEM_WRITE_ONLY] None) (mem_out_status w) ;;
    when (failed err) (
      printf "Error creating output buffer: %d\n" [AInt err] ;;
      release Mem_in ;;
      goto_cleanup) ;;
    (* Set kernel arguments *)
    err <- api (clSetKernelArg 0 Mem_in) (set_arg_status w 0%nat) ;;
    err' <- api (clSetKernelArg 1 Mem_out) (set_arg_status w 1%nat) ;;
    let err := Z.lor err err' in
    when (failed err) (
      printf "Error setting kernel arguments: %d\n" [AInt err] ;;
      release Mem_in ;;
      release Mem_out ;;
      goto_cleanup) ;;
    (* Execute kernel *)
    let global_size := NUM_VALUES in
    err <- api (clEnqueueNDRangeKernel global_size) (enqueue_status w) ;;
    when (failed err) (
      printf "Error executing kernel: %d\n" [AInt err] ;;
      release Mem_in ;;
      release Mem_out ;;
      goto_cleanup) ;;
    (* Read results *)
    err <- enqueue_read_buffer w Mem_out test_out ;;
    when (failed err) (
      printf "Error reading results: %d\n" [AInt err] ;;
      release Mem_in ;;
      release Mem_out ;;
      goto_cleanup) ;;
    (* Validate results *)
    ok <- call (validate test_in test_out) ;;
    when (negb (ok =? 0)) (
      printf "All values were properly squared!\n" []) ;;
    (* Cleanup *)
    release Mem_in ;;
    release Mem_out) ;;
  (* cleanup: *)
  free test_in ;;
  free test_out ;;
  release Kernel ;;
  release Program ;;
  release Queue ;;
  release Context ;;
  return_ 0.

(** Running the program from an empty heap: exit status and events. *)
Definition run (w : world) : outcome unit * state := main w initial_state.

Definition exit_status (r : outcome unit * state) : option Z :=
  match fst r with
  | Return code => Some code
  | _ => None
  end.

Definition events (r : outcome unit * state) : list event := trace (snd r).

(** * Vocabulary of the statements *)

(** [log evs s]: the state [s] after the events [evs]. *)
Definition log (evs : list event) (s : state) : state :=
  {| heap := heap s; next_block := next_block s; trace := trace s ++ evs |}.

(** [squared_at a b i]: [b[i] == a[i] * a[i]], the test of line 43 negated. *)
Definition squared_at (a b : list cl_float) (i : nat) : bool :=
  match b !! i, a !! i with
  | Some o, Some x => eqb o (mul x x)
  | _, _ => false
  end.

(** What [validate] prints at a mismatch. *)
Definition mismatch_report (i : nat) (o x : cl_float) : list event :=
  [ Printf "Error: Element %d did not match expected output.\n" [AInt (Z.of_nat i)];
    Printf "Saw %1.4f, expected %1.4f\n" [AFloat o; AFloat (mul x x)];
    Fflush ].

(** An event that only writes to standard output. *)
Definition diagnostic (e : event) : Prop :=
  match e with
  | Printf _ _ | Fflush => True
  | _ => False
  end.

(** ** What the arrays hold *)

(** A block after the stores [block[i] = f i] for the indices of [range]. *)
Definition fill (f : nat -> cl_float) (block : list cl_float) (range : list nat)
  : list cl_float :=
  foldl (fun b i => <[i := f i]> b) block range.

(** Where a block that ends at the [cleanup] label goes on. *)
Definition land_at_cleanup {B} (k : unit -> M B) (r : outcome unit * state)
  : outcome B * state :=
  match r with
  | (Val _, s') | (Goto_cleanup, s') => k tt s'
  | (Return c, s') => (Return c, s')
  | (Undefined, s') => (Undefined, s')
  end.

(** ** How far a run gets

    Each predicate says that every step up to and including the named one
    succeeded in the world [w]; [p] is the string [getBundleResourcePath]
    returned. *)

Definition ok_platform (w : world) : Prop :=
  platform_status w = CL_SUCCESS.

Definition ok_device (w : world) : Prop :=
  ok_platform w /\
  (device_status w CL_DEVICE_TYPE_GPU = CL_SUCCESS \/
   device_status w CL_DEVICE_TYPE_CPU = CL_SUCCESS).

Definition ok_context (w : world) : Prop :=
  ok_device w /\ context_status w = CL_SUCCESS.

Definition ok_queue (w : world) : Prop :=
  ok_context w /\ queue_status w = CL_SUCCESS.

Definition ok_source (w : world) (p : string) : Prop :=
  ok_queue w /\ getBundleResourcePath w "kernel.cl" = Some p.

Definition ok_program (w : world) (p : string) : Prop :=
  ok_source w p /\ program_status w p = CL_SUCCESS.

Definition ok_build (w : world) (p : string) : Prop :=
  ok_program w p /\ build_status w p = CL_SUCCESS.

Definition ok_kernel (w : world) (p : string) : Prop :=
  ok_build w p /\ kernel_status w = CL_SUCCESS.

Definition ok_mem_in (w : world) (p : string) : Prop :=
  ok_kernel w p /\ mem_in_status w = CL_SUCCESS.

Definition ok_mem_out (w : world) (p : string) : Prop :=
  ok_mem_in w p /\ mem_out_status w = CL_SUCCESS.

Definition ok_args (w : world) (p : string) : Prop :=
  ok_mem_out w p /\
  set_arg_status w 0%nat = CL_SUCCESS /\ set_arg_status w 1%nat = CL_SUCCESS.

Definition ok_dispatch (w : world) (p : string) : Prop :=
  ok_args w p /\ enqueue_status w = CL_SUCCESS.

Definition ok_read (w : world) (p : string) : Prop :=
  ok_dispatch w p /\ read_status w = CL_SUCCESS.

(** The steps that can fail with an OpenCL status. *)
Inductive step : Type :=
| Platform_lookup | Device_lookup | Context_creation | Queue_creation
| Program_creation | Program_build | Kernel_creation
| Input_buffer_creation | Output_buffer_creation | Argument_binding
| Kernel_dispatch | Read_back.

#[global] Instance step_eq_dec : EqDecision step.
Proof. solve_decision. Defined.

(** [failure w st e]: in the world [w] the run gets as far as the step [st],
    which fails, and [e] is the value of [err] that [main] tests there.
    Device lookup fails when both probes do, and [err] is then the status of
    the CPU probe; at the argument binding [err] is the bitwise or of the two
    statuses. *)
Definition failure (w : world) (st : step) (e : Z) : Prop :=
  e <> CL_SUCCESS /\
  match st with
  | Platform_lookup => platform_status w = e
  | Device_lookup =>
      ok_platform w /\ device_status w CL_DEVICE_TYPE_GPU <> CL_SUCCESS /\
      device_status w CL_DEVICE_TYPE_CPU = e
  | Context_creation => ok_device w /\ context_status w = e
  | Queue_creation => ok_context w /\ queue_status w = e
  | Program_creation => exists p, ok_source w p /\ program_status w p = e
  | Program_build => exists p, ok_program w p /\ build_status w p = e
  | Kernel_creation => exists p, ok_build w p /\ kernel_status w = e
  | Input_buffer_creation => exists p, ok_kernel w p /\ mem_in_status w = e
  | Output_buffer_creation => exists p, ok_mem_in w p /\ mem_out_status w = e
  | Argument_binding =>
      exists p, ok_mem_out w p /\
                Z.lor (set_arg_status w 0%nat) (set_arg_status w 1%nat) = e
  | Kernel_dispatch => exists p, ok_args w p /\ enqueue_status w = e
  | Read_back => exists p, ok_dispatch w p /\ read_status w = e
  end.

(** The format of the diagnostic that [main] prints for a failing step. *)
Definition message (st : step) : string :=
  match st with
  | Platform_lookup => "Error getting platform: %d\n"
  | Device_lookup => "No OpenCL devices found\n"
  | Context_creation => "Error creating context: %d\n"
  | Queue_creation => "Error creating command queue: %d\n"
  | Program_creation => "Error creating program: %d\n"
  | Program_build => "Error building program: %d\n"
  | Kernel_creation => "Error creating kernel: %d\n"
  | Input_buffer_creation => "Error creating input buffer: %d\n"
  | Output_buffer_creation => "Error creating output buffer: %d\n"
  | Argument_binding => "Error setting kernel arguments: %d\n"
  | Kernel_dispatch => "Error executing kernel: %d\n"
  | Read_back => "Error reading results: %d\n"
  end.

(** Its arguments: the error code, except for the device lookup. *)
Definition message_args (st : step) (e : Z) : list printf_arg :=
  match st with
  | Device_lookup => []
  | _ => [AInt e]
  end.

(** The steps whose error branch ends in [return 1]; the later ones end in
    [goto cleanup]. *)
Definition returns_from_branch (st : step) : bool :=
  match st with
  | Platform_lookup | Device_lookup | Context_creation | Queue_creation
  | Program_creation | Program_build | Kernel_creation => true
  | _ => false
  end.

(** ** Reading a run *)

(** The events of device selection. *)
Definition device_probe (w : world) : list event :=
  let gpu := device_status w CL_DEVICE_TYPE_GPU in
  if gpu =? CL_SUCCESS
  then [Call (clGetDeviceIDs CL_DEVICE_TYPE_GPU) gpu]
  else [Call (clGetDeviceIDs CL_DEVICE_TYPE_GPU) gpu;
        Printf "No GPU found, trying CPU...\n" [];
        Call (clGetDeviceIDs CL_DEVICE_TYPE_CPU)
             (device_status w CL_DEVICE_TYPE_CPU)].

(** The events of a run up to and including the creation of the queue, when
    all of that succeeds. *)
Definition queue_ready (w : world) : list event :=
  [Call clGetPlatformIDs CL_SUCCESS] ++ device_probe w ++
  [Call clGetDeviceInfo (device_info_status w);
   Printf "Using device: %s\n" [AStr (device_name w)];
   Call clCreateContext CL_SUCCESS;
   Call clCreateCommandQueue CL_SUCCESS].

(** ... up to and including the creation of the two buffers, [p] being the
    string handed to [clCreateProgramWithSource] ... *)
Definition buffers_ready (w : world) (p : string) : list event :=
  queue_ready w ++
  [Call (clCreateProgramWithSource p) CL_SUCCESS;
   Call clBuildProgram CL_SUCCESS;
   Call (clCreateKernel "square") CL_SUCCESS;
   Call (clCreateBuffer Mem_in [CL_MEM_READ_ONLY; CL_MEM_COPY_HOST_PTR] (Some 0%nat))
        CL_SUCCESS;
   Call (clCreateBuffer Mem_out [CL_MEM_WRITE_ONLY] None) CL_SUCCESS].

(** ... and up to and including the read-back. *)
Definition results_read (w : world) (p : string) : list event :=
  buffers_ready w p ++
  [Call (clSetKernelArg 0 Mem_in) CL_SUCCESS;
   Call (clSetKernelArg 1 Mem_out) CL_SUCCESS;
   Call (clEnqueueNDRangeKernel NUM_VALUES) CL_SUCCESS;
   Call (clEnqueueReadBuffer Mem_out true 1%nat) CL_SUCCESS].

(** The releases of lines 208-217, in their order. *)
Definition teardown : list event :=
  [Release Mem_in; Release Mem_out;
   Release Kernel; Release Program; Release Queue; Release Context].

Definition binding_call (e : event) : bool :=
  match e with
  | Call (clSetKernelArg _ _) _ => true
  | _ => false
  end.

Definition dispatch_call (e : event) : bool :=
  match e with
  | Call (clEnqueueNDRangeKernel _) _ => true
  | _ => false
  end.

(** The object whose handle a creating call stores. *)
Definition created_by (c : api_call) : option resource :=
  match c with
  | clCreateContext => Some Context
  | clCreateCommandQueue => Some Queue
  | clCreateProgramWithSource _ => Some Program
  | clCreateKernel _ => Some Kernel
  | clCreateBuffer dst _ _ => Some dst
  | _ => None
  end.

(** The objects created with success, and the objects released, in the order
    of the events. *)
Definition created (evs : list event) : list resource :=
  omap (fun e => match e with
                 | Call c status =>
                     match created_by c with
                     | Some r => if status =? CL_SUCCESS then Some r else None
                     | None => None
                     end
                 | _ => None
                 end) evs.

Definition released (evs : list event) : list resource :=
  omap (fun e => match e with Release r => Some r | _ => None end) evs.

(** How often [r] is released. *)
Definition release_count (r : resource) (evs : list event) : nat :=
  length (filter (fun r' => r' = r) (released evs)).

(** Whether an event is a call of the OpenCL program or kernel machinery
    ([clCreateProgramWithSource], [clBuildProgram], [clCreateKernel]), or of
    context and queue creation. *)
Definition program_work (e : event) : bool :=
  match e with
  | Call (clCreateProgramWithSource _) _ | Call clBuildProgram _
  | Call (clGetProgramBuildInfo _) _ | Call (clCreateKernel _) _ => true
  | _ => false
  end.

Definition context_or_queue_work (e : event) : bool :=
  match e with
  | Call clCreateContext _ | Call clCreateCommandQueue _ => true
  | _ => false
  end.

Definition device_probe_call (e : event) : bool :=
  match e with
  | Call (clGetDeviceIDs _) _ => true
  | _ => false
  end.

(** The strings handed to [clCreateProgramWithSource] during a run. *)
Definition sources_compiled (evs : list event) : list string :=
  omap (fun e => match e with
                 | Call (clCreateProgramWithSource src) _ => Some src
                 | _ => None
                 end) evs.

(** The error codes that the [printf]s of a run print. *)
Definition codes_printed (evs : list event) : list Z :=
  flat_map (fun e => match e with
                     | Printf _ args =>
                         omap (fun a => match a with AInt z => Some z | _ => None end) args
                     | _ => []
                     end) evs.

(** ** Sample worlds *)

(** The kernel of the specification, and where the bundle keeps it. *)
Definition kernel_text : string :=
  "__kernel void square(__global float* input, __global float* output) { size_t idx = get_global_id(0); output[idx] = input[idx] * input[idx]; }".

Definition kernel_url : string :=
  "file:///Applications/HelloOpenCL.app/Contents/Resources/kernel.cl".

Definition kernel_path : string :=
  "/Applications/HelloOpenCL.app/Contents/Resources/kernel.cl".

(** A device that squares. *)
Definition squares (i : nat) : cl_float := of_int (Z.of_nat i * Z.of_nat i).

(** A device that squares, except that element 7 comes back as 50. *)
Definition corrupted (i : nat) : cl_float :=
  if (i =? 7)%nat then of_int 50 else squares i.

(** [sample_world failing e bundled result]: every call succeeds, except
    that the step [failing] (if any) answers [e]; both device probes fail
    for [Device_lookup], the second binding for [Argument_binding].  The
    bundle holds [kernel.cl] when [bundled]; the device computes [result]. *)
Definition sample_world (failing : option step) (e : Z) (bundled : bool)
    (result : nat -> cl_float) : world :=
  let status st := if bool_decide (failing = Some st) then e else CL_SUCCESS in
  {| platform_status := status Platform_lookup;
     device_status := fun _ => status Device_lookup;
     device_info_status := CL_SUCCESS;
     device_name := "Apple M1";
     context_status := status Context_creation;
     queue_status := status Queue_creation;
     program_status := fun _ => status Program_creation;
     build_status := fun _ => status Program_build;
     build_log := fun _ => "error: expected identifier";
     kernel_status := status Kernel_creation;
     mem_in_status := status Input_buffer_creation;
     mem_out_status := status Output_buffer_creation;
     set_arg_status := fun i => if (i =? 1)%nat then status Argument_binding
                                else CL_SUCCESS;
     enqueue_status := status Kernel_dispatch;
     read_status := status Read_back;
     device_result := result;
     bundle_resource_url := fun f =>
       if bundled && String.eqb f "kernel.cl" then Some kernel_url else None;
     url_file_system_path := fun u =>
       if String.eqb u kernel_url then Some kernel_path else None;
     file_text := fun p =>
       if String.eqb p kernel_path then Some kernel_text else None;
     indeterminate := fun _ _ => S754_zero false;
     indeterminate_chars := fun _ => EmptyString |}.

Definition nominal : world := sample_world None 0 true squares.
Definition corrupted_world : world := sample_world None 0 true corrupted.
Definition no_device : world := sample_world (Some Device_lookup) (-1) true squares.
Definition no_bundle : world := sample_world None 0 false squares.
Definition build_refused : world := sample_world (Some Program_build) (-11) true squares.
Definition input_buffer_refused : world :=
  sample_world (Some Input_buffer_creation) (-61) true squares.
Definition binding_refused : world :=
  sample_world (Some Argument_binding) (-49) true squares.

(** A runtime that compiles the kernel of the specification and refuses
    any other text. *)
Definition strict_world : world :=
  {| platform_status := CL_SUCCESS;
     device_status := fun _ => CL_SUCCESS;
     device_info_status := CL_SUCCESS;
     device_name := "Apple M1";
     context_status := CL_SUCCESS;
     queue_status := CL_SUCCESS;
     program_status := fun _ => CL_SUCCESS;
     build_status := fun src => if String.eqb src kernel_text then CL_SUCCESS else -11;
     build_log := fun src =>
       if String.eqb src kernel_text then EmptyString
       else "<program source>:1:1: error: expected identifier or '('";
     kernel_status := CL_SUCCESS;
     mem_in_status := CL_SUCCESS;
     mem_out_status := CL_SUCCESS;
     set_arg_status := fun _ => CL_SUCCESS;
     enqueue_status := CL_SUCCESS;
     read_status := CL_SUCCESS;
     device_result := squares;
     bundle_resource_url := fun f =>
       if String.eqb f "kernel.cl" then Some kernel_url else None;
     url_file_system_path := fun u =>
       if String.eqb u kernel_url then Some kernel_path else None;
     file_text := fun p =>
       if String.eqb p kernel_path then Some kernel_text else None;
     indeterminate := fun _ _ => S754_zero false;
     indeterminate_chars := fun _ => EmptyString |}.

(** A heap with the input of [main] in block 0 and [out] in block 1. *)
Definition sample_state (out : list cl_float) : state :=
  {| heap := <[1%nat := out]> (<[0%nat := input_data]> ∅);
     next_block := 2%nat;
     trace := [] |}.

(** ** Lifetimes of the OpenCL objects *)

(** The objects a call is handed, as [main] writes its arguments. *)
Definition uses (c : api_call) : list resource :=
  match c with
  | clCreateCommandQueue => [Context]
  | clCreateProgramWithSource _ => [Context]
  | clBuildProgram => [Program]
  | clGetProgramBuildInfo _ => [Program]
  | clCreateKernel _ => [Program]
  | clCreateBuffer _ _ _ => [Context]
  | clSetKernelArg _ arg => [Kernel; arg]
  | clEnqueueNDRangeKernel _ => [Queue; Kernel]
  | clEnqueueReadBuffer src _ _ => [Queue; src]
  | _ => []
  end.

(** [lifetimes_ok live evs]: starting with the objects [live], every call of
    [evs] is handed live objects only, a creation that succeeds makes an
    object live that was not, a release takes a live object away, and
    nothing is live when [evs] ends. *)
Fixpoint lifetimes_ok (live : list resource) (evs : list event) : bool :=
  match evs with
  | [] => match live with [] => true | _ => false end
  | Call c status :: rest =>
      forallb (fun r => bool_decide (r ∈ live)) (uses c)
      && match created_by c with
         | Some r =>
             if status =? CL_SUCCESS
             then negb (bool_decide (r ∈ live)) && lifetimes_ok (r :: live) rest
             else lifetimes_ok live rest
         | None => lifetimes_ok live rest
         end
  | Release r :: rest =>
      bool_decide (r ∈ live)
      && lifetimes_ok (filter (fun r' => r' <> r) live) rest
  | _ :: rest => lifetimes_ok live rest
  end.

(** The line that [main] prints after a validation that passed. *)
Definition success_line : event :=
  Printf "All values were properly squared!\n" [].

(** ** Worlds that differ in what the program should not look at *)



(** ** [getBundleResourcePath], with its CoreFoundation calls

    The same function (main.c, lines 17-39), this time with the calls it
    makes on the way: what it creates, releases, allocates and frees. *)

Inductive cf_object : Type := CfFilename | FileURL.

Inductive cf_event : Type :=
| CFBundleGetMainBundle
| CFStringCreateWithCString (cStr : string)
| CFBundleCopyResourceURL (resourceName : string)
| CFURLGetFileSystemRepresentation (url : string)
| CFRelease (o : cf_object)
| Malloc_path
| Free_path.

Definition getBundleResourcePath_calls (w : world) (filename : string)
  : list cf_event * option string :=
  let t := [CFBundleGetMainBundle;
            CFStringCreateWithCString filename;
            CFBundleCopyResourceURL filename] in
  match bundle_resource_url w filename with
  | None => (t ++ [CFRelease CfFilename], None)
  | Some fileURL =>
      let t := t ++ [Malloc_path; CFURLGetFileSystemRepresentation fileURL] in
      let result := url_file_system_path w fileURL in
      let t := t ++ [CFRelease FileURL; CFRelease CfFilename] in
      match result with
      | None => (t ++ [Free_path], None)
      | Some path => (t, Some path)
      end
  end.

(** How often an event occurs. *)
Definition cf_count (p : cf_event -> bool) (evs : list cf_event) : nat :=
  length (filter (fun e => p e = true) evs).

Definition is_release (o : cf_object) (e : cf_event) : bool :=
  match e, o with
  | CFRelease CfFilename, CfFilename => true
  | CFRelease FileURL, FileURL => true
  | _, _ => false
  end.

Definition is_malloc (e : cf_event) : bool :=
  match e with Malloc_path => true | _ => false end.

Definition is_free (e : cf_event) : bool :=
  match e with Free_path => true | _ => false end.

(** ** Arrays that are too short *)

(** A heap with [a] in block 0 and [b] in block 1. *)
Definition two_arrays (a b : list cl_float) : state :=
  {| heap := <[1%nat := b]> (<[0%nat := a]> ∅);
     next_block := 2%nat;
     trace := [] |}.

(** * Properties *)

(** ** Bookkeeping on states *)

Lemma log_nil s : log [] s = s.
Proof. destruct s; unfold log; simpl. by rewrite app_nil_r. Qed.

Lemma log_log evs evs' s : log evs' (log evs s) = log (evs ++ evs') s.
Proof. unfold log; simpl. by rewrite app_assoc. Qed.

(** ** Running statements: one equation per construct *)

Section Run.

Context {A B : Type}.
Implicit Types (k : A -> M B) (s : state).

Lemma run_bind (m : M A) k s a s' :
  m s = (Val a, s') -> bind m k s = k a s'.
Proof. unfold bind. by intros ->. Qed.

Lemma run_ret (a : A) k s : bind (ret a) k s = k a s.
Proof. reflexivity. Qed.

Lemma run_return_ code k s : bind (return_ code) k s = (Return code, s).
Proof. reflexivity. Qed.

Lemma run_goto k s : bind goto_cleanup k s = (Goto_cleanup, s).
Proof. reflexivity. Qed.

Lemma run_assoc {C} (m : M C) (f : C -> M A) k s :
  bind (bind m f) k s = bind m (fun x => bind (f x) k) s.
Proof. unfold bind. by destruct (m s) as [[]]. Qed.

End Run.

Section RunEvents.

Context {B : Type}.
Implicit Types (s : state).

Lemma run_emit e (k : unit -> M B) s : bind (emit e) k s = k tt (log [e] s).
Proof. reflexivity. Qed.

Lemma run_printf fmt args (k : unit -> M B) s :
  bind (printf fmt args) k s = k tt (log [Printf fmt args] s).
Proof. reflexivity. Qed.

Lemma run_fflush (k : unit -> M B) s : bind fflush k s = k tt (log [Fflush] s).
Proof. reflexivity. Qed.

Lemma run_release r (k : unit -> M B) s :
  bind (release r) k s = k tt (log [Release r] s).
Proof. reflexivity. Qed.

Lemma run_api c status (k : Z -> M B) s :
  bind (api c status) k s = k status (log [Call c status] s).
Proof. reflexivity. Qed.

Lemma run_load p i (k : cl_float -> M B) s block v :
  heap s !! p = Some block -> block !! i = Some v ->
  bind (load p i) k s = k v s.
Proof. intros Hp Hi. unfold bind, load. by rewrite Hp, Hi. Qed.

End RunEvents.

(** ** The validation loop *)

Section Validate.

Variables (input output : loc) (a b : list cl_float) (s : state).
Hypothesis Hin : heap s !! input = Some a.
Hypothesis Hout : heap s !! output = Some b.

Lemma iteration_match i :
  squared_at a b i = true ->
  validate_iteration input output i s = (Val tt, s).
Proof using Hin Hout.
  unfold squared_at, validate_iteration.
  destruct (b !! i) as [o|] eqn:Ho; [|done].
  destruct (a !! i) as [x|] eqn:Hx; [|done].
  intros Heq.
  rewrite (run_load _ _ _ _ b o), (run_load _ _ _ _ a x) by done.
  unfold neb. fold (eqb o (mul x x)). by rewrite Heq.
Qed.

Lemma iteration_mismatch i o x :
  b !! i = Some o -> a !! i = Some x -> neb o (mul x x) = true ->
  validate_iteration input output i s
  = (Return 0, log (mismatch_report i o x) s).
Proof using Hin Hout.
  intros Ho Hx Hne.
  unfold validate_iteration.
  rewrite (run_load _ _ _ _ b o), (run_load _ _ _ _ a x) by done.
  rewrite Hne. cbn [when].
  rewrite run_printf.
  rewrite (run_load _ _ _ _ b o), (run_load _ _ _ _ a x) by done.
  rewrite run_printf, run_fflush, !log_log. reflexivity.
Qed.

Lemma loop_all_match range :
  Forall (fun i => squared_at a b i = true) range ->
  for_each range (validate_iteration input output) s = (Val tt, s).
Proof using Hin Hout.
  induction 1 as [|i range Hi _ IH]; [done|].
  cbn [for_each]. unfold bind at 1. by rewrite iteration_match.
Qed.

Lemma loop_first_mismatch before i after o x :
  Forall (fun j => squared_at a b j = true) before ->
  b !! i = Some o -> a !! i = Some x -> neb o (mul x x) = true ->
  for_each (before ++ i :: after) (validate_iteration input output) s
  = (Return 0, log (mismatch_report i o x) s).
Proof using Hin Hout.
  intros Hbefore Ho Hx Hne.
  induction Hbefore as [|j before Hj _ IH]; cbn [for_each app]; unfold bind at 1.
  - by rewrite (iteration_mismatch i o x).
  - by rewrite iteration_match.
Qed.

End Validate.

(** Splitting the index range of a [for] loop at an index. *)
Lemma seq_split_at (n i : nat) :
  (i < n)%nat -> seq 0 n = seq 0 i ++ i :: seq (S i) (n - S i).
Proof.
  intros Hi. replace n with (i + S (n - S i))%nat at 1 by lia.
  by rewrite seq_app.
Qed.

(** A list either satisfies a test everywhere or has a first element that
    fails it. *)
Lemma first_failure {X} (p : X -> bool) (l : list X) :
  Forall (fun x => p x = true) l \/
  exists before x after,
    l = before ++ x :: after /\ Forall (fun y => p y = true) before /\ p x = false.
Proof.
  induction l as [|x l IH]; [by left|].
  destruct (p x) eqn:Hx.
  - destruct IH as [IH|(before & y & after & -> & Hb & Hy)].
    + left. by constructor.
    + right. exists (x :: before), y, after. repeat split; [by constructor|done].
  - right. exists [], x, l. by repeat split.
Qed.

Lemma mismatch_report_diagnostic i o x : Forall diagnostic (mismatch_report i o x).
Proof. repeat constructor. Qed.

(** One iteration falls through, reports a mismatch and returns 0, or
    reads outside a block. *)
Lemma iteration_cases input output i s :
  validate_iteration input output i s = (Val tt, s)
  \/ (exists o x,
        validate_iteration input output i s
        = (Return 0, log (mismatch_report i o x) s))
  \/ validate_iteration input output i s = (Undefined, s).
Proof.
  destruct (heap s !! output) as [b|] eqn:Hout; cycle 1.
  { right; right. unfold validate_iteration, bind, load. by rewrite Hout. }
  destruct (b !! i) as [o|] eqn:Ho; cycle 1.
  { right; right. unfold validate_iteration, bind, load. by rewrite Hout, Ho. }
  destruct (heap s !! input) as [a|] eqn:Hin; cycle 1.
  { right; right. unfold validate_iteration.
    rewrite (run_load _ _ _ _ b o) by done. unfold bind, load. by rewrite Hin. }
  destruct (a !! i) as [x|] eqn:Hx; cycle 1.
  { right; right. unfold validate_iteration.
    rewrite (run_load _ _ _ _ b o) by done. unfold bind, load.
    by rewrite Hin, Hx. }
  destruct (neb o (mul x x)) eqn:Hne.
  - right; left. exists o, x.
    by apply (iteration_mismatch input output a b s Hin Hout i o x).
  - left. apply (iteration_match input output a b s Hin Hout).
    unfold squared_at. rewrite Ho, Hx.
    unfold neb in Hne. by apply negb_false_iff in Hne.
Qed.

Lemma iteration_frame input output i s :
  exists evs,
    snd (validate_iteration input output i s) = log evs s /\ Forall diagnostic evs.
Proof.
  destruct (iteration_cases input output i s) as [->|[(o & x & ->)| ->]].
  - exists []. by rewrite log_nil.
  - exists (mismatch_report i o x). split; [done|apply mismatch_report_diagnostic].
  - exists []. by rewrite log_nil.
Qed.

Lemma loop_frame input output range s :
  exists evs,
    snd (for_each range (validate_iteration input output) s) = log evs s
    /\ Forall diagnostic evs.
Proof.
  revert s. induction range as [|i range IH]; intros s.
  { exists []. by rewrite log_nil. }
  cbn [for_each]. unfold bind at 1.
  destruct (iteration_frame input output i s) as (evs & Hs & Hevs).
  destruct (validate_iteration input output i s) as [[[]| | |] s1];
    simpl in Hs; subst s1; try by (exists evs).
  destruct (IH (log evs s)) as (evs' & Hs' & Hevs').
  exists (evs ++ evs'). rewrite Hs', log_log. split; [done|].
  by apply Forall_app.
Qed.

Lemma iteration_outcome input output i s r s' :
  validate_iteration input output i s = (r, s') ->
  r = Val tt \/ r = Return 0 \/ r = Undefined.
Proof.
  destruct (iteration_cases input output i s) as [->|[(o & x & ->)| ->]];
    intros [= <- _]; auto.
Qed.

Lemma loop_outcome input output range s r s' :
  for_each range (validate_iteration input output) s = (r, s') ->
  r = Val tt \/ r = Return 0 \/ r = Undefined.
Proof.
  revert s. induction range as [|i range IH]; intros s.
  { intros [= <- _]. by left. }
  cbn [for_each]. unfold bind at 1.
  destruct (validate_iteration input output i s) as [r1 s1] eqn:Hi.
  apply iteration_outcome in Hi.
  destruct r1 as [[]| | |]; [apply IH|intros [= <- _]; intuition congruence..].
Qed.

Lemma validate_outcome input output s r s' :
  validate input output s = (r, s') ->
  r = Return 0 \/ r = Return 1 \/ r = Undefined.
Proof.
  unfold validate, bind.
  destruct (for_each _ _ s) as [r1 s1] eqn:Hloop.
  apply loop_outcome in Hloop.
  destruct r1 as [[]| | |]; intros [= <- _]; intuition congruence.
Qed.

Lemma validate_all_squared input output a b s :
  heap s !! input = Some a -> heap s !! output = Some b ->
  Forall (fun i => squared_at a b i = true) (seq 0 NUM_VALUES) ->
  validate input output s = (Return 1, s).
Proof.
  intros Hin Hout Hall. unfold validate.
  by rewrite (run_bind _ _ _ tt s (loop_all_match input output a b s Hin Hout _ Hall)).
Qed.

Lemma validate_mismatch input output a b s before i after o x :
  heap s !! input = Some a -> heap s !! output = Some b ->
  seq 0 NUM_VALUES = before ++ i :: after ->
  Forall (fun j => squared_at a b j = true) before ->
  b !! i = Some o -> a !! i = Some x -> neb o (mul x x) = true ->
  validate input output s = (Return 0, log (mismatch_report i o x) s).
Proof.
  intros Hin Hout Hsplit Hbefore Ho Hx Hne. unfold validate. rewrite Hsplit.
  unfold bind.
  by rewrite (loop_first_mismatch input output a b s Hin Hout before i after o x).
Qed.

Lemma not_squared_at a b i o x :
  b !! i = Some o -> a !! i = Some x ->
  squared_at a b i = false -> neb o (mul x x) = true.
Proof.
  unfold squared_at, neb, eqb. intros -> ->. by intros ->.
Qed.

(** Either every element is the square of its input, or there is a first
    index where it is not. *)
Lemma squared_or_first_mismatch a b :
  (forall i, (i < NUM_VALUES)%nat -> squared_at a b i = true)
  \/ (exists i, (i < NUM_VALUES)%nat
                /\ (forall j, (j < i)%nat -> squared_at a b j = true)
                /\ squared_at a b i = false).
Proof.
  destruct (first_failure (squared_at a b) (seq 0 NUM_VALUES))
    as [Hok|(before & i & after & Hsplit & Hbefore & Hi)].
  - left. intros i Hi. rewrite Forall_forall in Hok.
    apply Hok, list_elem_of_In, in_seq. lia.
  - right. exists i.
    assert (before = seq 0 i /\ (i < NUM_VALUES)%nat) as [-> Hlt].
    { assert (In i (seq 0 NUM_VALUES)) as Hin by (rewrite Hsplit; apply in_elt).
      apply in_seq in Hin.
      rewrite (seq_split_at NUM_VALUES (length before)) in Hsplit.
      - apply app_inj_1 in Hsplit as [Hb' Hrest]; [|by rewrite length_seq].
        injection Hrest as Hi' _. split; [by rewrite <- Hi'|lia].
      - apply (f_equal length) in Hsplit.
        rewrite length_seq, length_app in Hsplit. simpl in Hsplit. lia. }
    split; [done|]. split; [|done].
    intros j Hj. rewrite Forall_forall in Hbefore.
    apply Hbefore, list_elem_of_In, in_seq. lia.
Qed.

Section ValidateArrays.

Variables (input output : loc) (a b : list cl_float) (s : state).
Hypothesis Hin : heap s !! input = Some a.
Hypothesis Hout : heap s !! output = Some b.
Hypothesis Ha : length a = NUM_VALUES.
Hypothesis Hb : length b = NUM_VALUES.

Lemma validate_passes :
  (forall i, (i < NUM_VALUES)%nat -> squared_at a b i = true) ->
  validate input output s = (Return 1, s).
Proof using Hin Hout.
  clear Ha Hb.
  intros H. apply (validate_all_squared input output a b); [done..|].
  apply Forall_forall. intros i Hi%list_elem_of_In%in_seq. apply H. lia.
Qed.

Lemma validate_fails_at i :
  (i < NUM_VALUES)%nat ->
  (forall j, (j < i)%nat -> squared_at a b j = true) ->
  squared_at a b i = false ->
  exists o x, b !! i = Some o /\ a !! i = Some x /\
    validate input output s = (Return 0, log (mismatch_report i o x) s).
Proof using Hin Hout Ha Hb.
  intros Hi Hbefore Hfail.
  destruct (lookup_lt_is_Some_2 b i) as [o Ho]; [lia|].
  destruct (lookup_lt_is_Some_2 a i) as [x Hx]; [lia|].
  exists o, x. split; [done|]. split; [done|].
  apply (validate_mismatch input output a b s (seq 0 i) i
           (seq (S i) (NUM_VALUES - S i))); try done.
  - by apply seq_split_at.
  - apply Forall_forall. intros j Hj%list_elem_of_In%in_seq. apply Hbefore. lia.
  - by eapply not_squared_at.
Qed.

End ValidateArrays.

(** C3: on arrays of [NUM_VALUES] floats (the input that [main] fills with
    0.0, 1.0, ..., 1023.0 is one), [validate] returns 1 exactly when
    [output[i] == input[i] * input[i]] holds, as a comparison of floats, at
    every index below [NUM_VALUES], and then it prints nothing; at the first
    index where the comparison fails it prints that index, the value seen
    and the value expected, and returns 0. *)
Theorem validate_reports_first_mismatch input output a b s :
  heap s !! input = Some a -> heap s !! output = Some b ->
  length a = NUM_VALUES -> length b = NUM_VALUES ->
  (fst (validate input output s) = Return 1
     <-> forall i, (i < NUM_VALUES)%nat -> squared_at a b i = true)
  /\ ((forall i, (i < NUM_VALUES)%nat -> squared_at a b i = true) ->
      validate input output s = (Return 1, s))
  /\ (forall i, (i < NUM_VALUES)%nat ->
        (forall j, (j < i)%nat -> squared_at a b j = true) ->
        squared_at a b i = false ->
        exists o x, b !! i = Some o /\ a !! i = Some x /\
          validate input output s = (Return 0, log (mismatch_report i o x) s)).
Proof.
  intros Hin Hout Ha Hb.
  pose proof (validate_passes input output a b s Hin Hout) as Hpass.
  pose proof (validate_fails_at input output a b s Hin Hout Ha Hb) as Hfail.
  split; [split|split]; [|by intros ->%Hpass|done|done].
  intros Hret.
  destruct (squared_or_first_mismatch a b) as [Hok|(i & Hi & Hbefore & Hno)];
    [done|].
  destruct (Hfail i Hi Hbefore Hno) as (o & x & _ & _ & Hrun).
  by rewrite Hrun in Hret.
Qed.

Lemma validate_reports_first_mismatch_witness :
  validate 0%nat 1%nat (sample_state (map corrupted (seq 0 NUM_VALUES)))
  = (Return 0,
     log (mismatch_report 7 (of_int 50) (of_int 7))
         (sample_state (map corrupted (seq 0 NUM_VALUES)))).
Proof.
  destruct (validate_reports_first_mismatch 0%nat 1%nat input_data
              (map corrupted (seq 0 NUM_VALUES))
              (sample_state (map corrupted (seq 0 NUM_VALUES))))
    as (_ & _ & Hfirst).
  - unfold sample_state; cbn [heap].
    rewrite lookup_insert_ne by discriminate. apply lookup_insert_eq.
  - unfold sample_state; cbn [heap]. apply lookup_insert_eq.
  - vm_compute. reflexivity.
  - vm_compute. reflexivity.
  - destruct (Hfirst 7%nat) as (o & x & Ho & Hx & Hrun).
    + unfold NUM_VALUES. lia.
    + intros j Hj.
      do 7 (destruct j as [|j]; [vm_compute; reflexivity|]). lia.
    + vm_compute. reflexivity.
    + vm_compute in Ho, Hx. injection Ho as <-. injection Hx as <-.
      exact Hrun.
Defined.

(** On the input of [main] the products are exact: [i * i] is a float for
    every [i] below [NUM_VALUES], so a device that squares passes. *)
Lemma squares_exact :
  map (fun x => mul x x) input_data = map squares (seq 0 NUM_VALUES).
Proof. vm_compute. reflexivity. Qed.

(** C10: [validate] only reads its two arrays.  Whatever the heap and the
    two pointers, the heap after the call is the heap before it (so both
    arrays, and every other block, are unchanged); what the call adds is a
    run of [printf]/[fflush] events on standard output and its result, which
    is 0 or 1 (or undefined behaviour, when an array is too short). *)
Theorem validate_read_only input output s :
  heap (snd (validate input output s)) = heap s
  /\ next_block (snd (validate input output s)) = next_block s
  /\ (exists evs, trace (snd (validate input output s)) = trace s ++ evs
                  /\ Forall diagnostic evs)
  /\ (fst (validate input output s) = Return 0
      \/ fst (validate input output s) = Return 1
      \/ fst (validate input output s) = Undefined).
Proof.
  assert (exists evs, snd (validate input output s) = log evs s
                      /\ Forall diagnostic evs) as (evs & Hs & Hevs).
  { unfold validate, bind.
    destruct (loop_frame input output (seq 0 NUM_VALUES) s) as (evs & Hs & Hevs).
    exists evs. split; [|done].
    by destruct (for_each _ _ s) as [[[]| | |] s1]. }
  rewrite Hs. repeat split; [by exists evs|].
  destruct (validate input output s) as [r s1] eqn:Hv.
  by apply validate_outcome in Hv.
Qed.

(** ** The heap operations of [main] *)

Lemma set_heap_id s : set_heap (heap s) s = s.
Proof. by destruct s. Qed.

Lemma fill_length f range block : length (fill f block range) = length block.
Proof.
  revert block. induction range as [|i range IH]; intros block; [done|].
  cbn [fill foldl]. fold (fill f (<[i := f i]> block) range).
  by rewrite IH, length_insert.
Qed.

(** Storing [f i] at every index of a block leaves [map f] of the indices. *)
Lemma fill_seq f n block :
  (n <= length block)%nat ->
  fill f block (seq 0 n) = map f (seq 0 n) ++ drop n block.
Proof.
  induction n as [|n IH]; intros Hn; [by rewrite drop_0|].
  rewrite seq_S, map_app. unfold fill in *. rewrite foldl_app, IH by lia.
  cbn [foldl map Nat.add app].
  assert (length (map f (seq 0 n)) = n) as Hlen by by rewrite length_map, length_seq.
  rewrite insert_app_r_alt by lia. rewrite Hlen, Nat.sub_diag.
  destruct (drop n block) as [|x rest] eqn:Hd.
  { apply (f_equal length) in Hd. rewrite length_drop in Hd. simpl in Hd. lia. }
  cbn [insert list_insert]. rewrite <- app_assoc. cbn [app].
  do 2 f_equal.
  replace (S n) with (n + 1)%nat by lia. by rewrite <- drop_drop, Hd.
Qed.

Lemma length_input_data : length input_data = NUM_VALUES.
Proof. unfold input_data. by rewrite length_map, length_seq. Qed.

Lemma length_output_data w : length (output_data w) = NUM_VALUES.
Proof. unfold output_data. by rewrite length_map, length_seq. Qed.

Lemma length_fresh_block w l : length (fresh_block w l) = NUM_VALUES.
Proof. unfold fresh_block. by rewrite length_map, length_seq. Qed.

Lemma seq_in_range n : Forall (fun i => (i < n)%nat) (seq 0 n).
Proof. apply Forall_forall. intros i Hi%list_elem_of_In%in_seq. lia. Qed.

(** The loop of lines 153-155 on a fresh block. *)
Lemma fill_fresh_block w l :
  fill (fun i => of_int (Z.of_nat i)) (fresh_block w l) (seq 0 NUM_VALUES)
  = input_data.
Proof.
  rewrite fill_seq by by rewrite length_fresh_block.
  rewrite drop_ge by by rewrite length_fresh_block.
  apply app_nil_r.
Qed.

Lemma run_store {B} p i v (k : unit -> M B) s block :
  heap s !! p = Some block -> (i < length block)%nat ->
  bind (store p i v) k s = k tt (set_heap (<[p := <[i := v]> block]> (heap s)) s).
Proof.
  intros Hp Hi. unfold bind, store. rewrite Hp. by rewrite decide_True.
Qed.

Lemma run_store_loop {B} p f range (k : unit -> M B) s block :
  heap s !! p = Some block ->
  Forall (fun i => (i < length block)%nat) range ->
  bind (for_each range (fun i => store p i (f i))) k s
  = k tt (set_heap (<[p := fill f block range]> (heap s)) s).
Proof.
  intros Hp Hrange. revert s block Hp Hrange.
  induction range as [|i range IH]; intros s block Hp Hrange.
  { cbn [for_each fill foldl]. rewrite run_ret.
    by rewrite insert_id, set_heap_id. }
  apply Forall_cons in Hrange as [Hi Hrange].
  cbn [for_each]. rewrite run_assoc, (run_store _ _ _ _ _ block) by done.
  rewrite (IH _ (<[i := f i]> block)).
  - cbn [heap set_heap]. by rewrite insert_insert_eq.
  - cbn [heap set_heap]. apply lookup_insert_eq.
  - by rewrite length_insert.
Qed.

Lemma run_write_block {B} p data (k : unit -> M B) s block :
  heap s !! p = Some block -> length data = length block ->
  bind (write_block p data) k s = k tt (set_heap (<[p := data]> (heap s)) s).
Proof.
  intros Hp Hlen. unfold bind, write_block. rewrite Hp.
  rewrite decide_True by lia.
  by rewrite drop_ge, app_nil_r by lia.
Qed.

Lemma run_free {B} p (k : unit -> M B) s block :
  heap s !! p = Some block ->
  bind (free p) k s = k tt (set_heap (delete p (heap s)) s).
Proof. intros Hp. unfold bind, free. by rewrite Hp. Qed.

Lemma run_until_cleanup {B} body (k : unit -> M B) s :
  bind (until_cleanup body) k s = land_at_cleanup k (body s).
Proof.
  unfold bind, until_cleanup, land_at_cleanup.
  by destruct (body s) as [[[]| | |] s'].
Qed.

Lemma when_true body : when true body = body.
Proof. reflexivity. Qed.

Lemma when_false body : when false body = ret tt.
Proof. reflexivity. Qed.

(** ** [validate] as [main] calls it *)

(** The call of line 203: either every element is the square of its
    input and the call answers 1 in silence, or there is a first index [i]
    where it is not, and the call reports it and answers 0. *)
Lemma call_validate_cases input output a b s :
  heap s !! input = Some a -> heap s !! output = Some b ->
  length a = NUM_VALUES -> length b = NUM_VALUES ->
  ((forall i, (i < NUM_VALUES)%nat -> squared_at a b i = true)
   /\ call (validate input output) s = (Val 1, s))
  \/ (exists i o x,
        (i < NUM_VALUES)%nat
        /\ (forall j, (j < i)%nat -> squared_at a b j = true)
        /\ squared_at a b i = false
        /\ b !! i = Some o /\ a !! i = Some x
        /\ call (validate input output) s
           = (Val 0, log (mismatch_report i o x) s)).
Proof.
  intros Hin Hout Ha Hb. unfold call.
  destruct (squared_or_first_mismatch a b) as [Hok|(i & Hi & Hbefore & Hno)].
  - left. split; [done|].
    by rewrite (validate_passes input output a b s Hin Hout Hok).
  - right. exists i.
    destruct (validate_fails_at input output a b s Hin Hout Ha Hb i Hi Hbefore Hno)
      as (o & x & Ho & Hx & ->).
    by exists o, x.
Qed.

(** ** C strings *)

Lemma c_string_terminated s :
  has_nul s = false -> c_string (s +:+ String NUL EmptyString) = s.
Proof.
  induction s as [|c s IH]; [done|].
  change (has_nul (String c s)) with (Ascii.eqb c NUL || has_nul s).
  change (c_string (String c s +:+ String NUL EmptyString))
    with (if Ascii.eqb c NUL then EmptyString
          else String c (c_string (s +:+ String NUL EmptyString))).
  intros [-> Hs]%orb_false_iff. by rewrite IH.
Qed.

(** ** Symbolic execution of [main]

    [exec] runs the statements at the head of the program; [branch] splits
    on the status that the next [if] tests, or takes it from a hypothesis;
    [heap_step] runs a statement that reads or writes the heap.  String
    literals are put aside while the program runs. *)

Ltac hide_strings :=
  repeat match goal with
         | |- context [String ?c ?s] =>
             let x := fresh "str" in set (x := String c s) in *
         end.

Ltac show_strings :=
  repeat match goal with x := String _ _ |- _ => subst x end.

Ltac reduce :=
  cbn [bind emit api printf release fflush ret return_ goto_cleanup undefined
       negb land_at_cleanup malloc fst snd Z.eqb Pos.eqb
       heap next_block trace set_heap log initial_state app
       exit_status events].

Ltac exec :=
  repeat (progress (reduce; unfold enqueue_read_buffer, get_build_log, CL_SUCCESS;
                    rewrite ?when_true, ?when_false, ?run_assoc, ?Nat.ltb_irrefl)).

Ltac branch_on e :=
  let H := fresh "Hstatus" in
  lazymatch goal with
  | H' : Z.eqb e 0 = _ |- _ => rewrite !H'
  | _ =>
      lazymatch e with
      | Z.lor ?a ?b =>
          lazymatch goal with
          | Ha : Z.eqb a 0 = true, Hb : Z.eqb b 0 = true |- _ =>
              assert (H : Z.eqb (Z.lor a b) 0 = true)
                by (apply Z.eqb_eq, Z.lor_eq_0_iff; split; by apply Z.eqb_eq);
              rewrite !H
          | _ => destruct (Z.eqb e 0) eqn:H
          end
      | _ => destruct (Z.eqb e 0) eqn:H
      end
  end.

Ltac branch :=
  match goal with
  | |- context [when (negb (Z.eqb ?e 0))] => branch_on e
  | |- context [when (Z.eqb ?e 0)] => branch_on e
  | |- context [getBundleResourcePath ?w ?f] =>
      lazymatch goal with
      | H : getBundleResourcePath w f = _ |- _ => rewrite !H
      | _ => let H := fresh "Hsource" in destruct (getBundleResourcePath w f) eqn:H
      end
  end.

Ltac heap_facts :=
  cbn [heap next_block set_heap log];
  lazymatch goal with
  | |- length (fresh_block _ _) = NUM_VALUES => apply length_fresh_block
  | |- length input_data = NUM_VALUES => apply length_input_data
  | |- length (output_data _) = NUM_VALUES => apply length_output_data
  | |- length (output_data _) = length (fresh_block _ _) =>
      rewrite length_output_data, length_fresh_block; reflexivity
  | |- Forall _ (seq 0 NUM_VALUES) =>
      rewrite length_fresh_block; apply seq_in_range
  | |- _ !! _ = Some _ =>
      repeat first [ rewrite lookup_insert_eq
                   | rewrite lookup_insert_ne by discriminate
                   | rewrite lookup_delete_ne by discriminate ];
      reflexivity
  end.

Ltac heap_step :=
  match goal with
  | |- context [bind (for_each (seq 0 NUM_VALUES) (fun i => store ?p i _)) _ ?s] =>
      erewrite (run_store_loop p _ _ _ s); [|heap_facts|heap_facts];
      rewrite fill_fresh_block
  | |- context [bind (write_block ?p _) _ ?s] =>
      erewrite (run_write_block p _ _ s); [|heap_facts|heap_facts]
  | |- context [bind (free ?p) _ ?s] =>
      erewrite (run_free p _ s); [|heap_facts]
  | |- context [bind (until_cleanup _) _ _] => rewrite run_until_cleanup
  | |- context [bind (call (validate ?a ?b)) _
                     (set_heap (<[ _ := output_data ?w ]> _) ?s0)] =>
      let s := constr:(set_heap (<[ b := output_data w ]> (heap s0)) s0) in
      let H := fresh "Hvalidate" in
      let Hsq := fresh "Hsquared" in
      let i := fresh "i" in let o := fresh "o" in let x := fresh "x" in
      let Hi := fresh "Hi" in let Hlt := fresh "Hbefore" in
      let Hno := fresh "Hmismatch" in
      let Ho := fresh "Ho" in let Hx := fresh "Hx" in
      destruct (call_validate_cases a b input_data (output_data w) s)
        as [[Hsq H]|(i & o & x & Hi & Hlt & Hno & Ho & Hx & H)];
      [heap_facts|heap_facts|heap_facts|heap_facts
      |rewrite (run_bind _ _ _ _ _ H); clear H
      |rewrite (run_bind _ _ _ _ _ H); clear H]
  end.

(** The goal with the run abstracted, so that the program is executed
    once. *)
Ltac focus_run :=
  match goal with
  | |- context [run ?w] =>
      pattern (run w);
      lazymatch goal with
      | |- ?P _ => let Q := fresh "Claim" in set (Q := P)
      end
  end.

Ltac explore :=
  focus_run;
  unfold run, main, failed, CL_SUCCESS in *;
  hide_strings;
  exec; repeat (first [branch | heap_step]; exec);
  show_strings;
  match goal with Q := _ |- _ => subst Q; cbv beta end;
  unfold mismatch_report; reduce.

(** The premises [ok_...] as the statuses that [main] tests. *)
Ltac premises :=
  unfold ok_read, ok_dispatch, ok_args, ok_mem_out, ok_mem_in, ok_kernel,
    ok_build, ok_program, ok_source, ok_queue, ok_context, ok_device,
    ok_platform, CL_SUCCESS in *;
  repeat match goal with
         | H : _ /\ _ |- _ => destruct H
         | H : _ \/ _ |- _ => destruct H
         | H : exists _, _ |- _ => destruct H
         | H : ?e = 0 |- _ => apply Z.eqb_eq in H
         | H : ?e <> 0 |- _ => apply Z.eqb_neq in H
         end.

(** The statuses found equal to 0 on the way, put in place. *)
Ltac statuses :=
  repeat match goal with
         | H : Z.eqb (Z.lor _ _) 0 = true |- _ =>
             apply Z.eqb_eq, Z.lor_eq_0_iff in H; destruct H
         | H : Z.eqb ?e 0 = true |- _ =>
             apply Z.eqb_eq in H; rewrite ?H in *; clear H
         | H : ?e = 0 |- _ => rewrite ?H in *; clear H
         end.


(** The statuses found different from 0, where a statement tests them. *)
Ltac failures :=
  repeat match goal with
         | H : Z.eqb ?e 0 = false |- context [Z.eqb ?e 0] => rewrite H
         end.

Ltac settle := statuses; failures; cbn [app].

(** * The claims about [main] *)

(** C6: device selection.  After the platform is found, the device probes
    of a run are those of [device_probe]: the GPU probe first, and the CPU
    probe only after the GPU probe failed; nothing else in the run probes
    for a device.  When both probes fail the run prints
    "No OpenCL devices found" and returns 1, and that is all it does: no
    context, queue or program call is made. *)
Theorem device_selection w :
  ok_platform w ->
  (exists rest,
      events (run w)
      = [Call clGetPlatformIDs CL_SUCCESS] ++ device_probe w ++ rest
      /\ filter device_probe_call rest = [])
  /\ (device_status w CL_DEVICE_TYPE_GPU <> CL_SUCCESS ->
      device_status w CL_DEVICE_TYPE_CPU <> CL_SUCCESS ->
      exit_status (run w) = Some 1
      /\ events (run w)
         = [Call clGetPlatformIDs CL_SUCCESS;
            Call (clGetDeviceIDs CL_DEVICE_TYPE_GPU)
                 (device_status w CL_DEVICE_TYPE_GPU);
            Printf "No GPU found, trying CPU...\n" [];
            Call (clGetDeviceIDs CL_DEVICE_TYPE_CPU)
                 (device_status w CL_DEVICE_TYPE_CPU);
            Printf "No OpenCL devices found\n" []]
      /\ filter context_or_queue_work (events (run w)) = []
      /\ filter program_work (events (run w)) = []).
Proof.
  intros Hplatform. split.
  - premises. unfold device_probe.
    explore; rewrite ?Hstatus, ?Hstatus0;
      (eexists; split; [apply Z.eqb_eq in Hplatform; rewrite Hplatform; reflexivity|]);
      reflexivity.
  - intros Hgpu Hcpu. premises. explore. statuses. by repeat split.
Qed.

Lemma device_selection_witness :
  ok_platform no_device /\ exit_status (run no_device) = Some 1.
Proof.
  split; [reflexivity|].
  destruct (device_selection no_device) as [_ H]; [reflexivity|].
  apply H; discriminate.
Defined.

(** C7: a missing kernel source.  When the run has created the context and
    the queue and [getBundleResourcePath] returns NULL, the run prints that
    [kernel.cl] is not in the bundle, releases the queue and then the
    context, and returns 1; no program is created or built. *)
Theorem missing_kernel_source w :
  ok_queue w ->
  getBundleResourcePath w "kernel.cl" = None ->
  exit_status (run w) = Some 1
  /\ events (run w)
     = queue_ready w ++
       [Printf "Could not find %s in bundle\n" [AStr "kernel.cl"];
        Release Queue; Release Context]
  /\ filter program_work (events (run w)) = [].
Proof.
  intros Hqueue Hsource. unfold queue_ready, device_probe.
  premises; explore; statuses; rewrite ?Hstatus; by repeat split.
Qed.

Lemma missing_kernel_source_witness :
  exit_status (run no_bundle) = Some 1
  /\ released (events (run no_bundle)) = [Queue; Context].
Proof.
  destruct (missing_kernel_source no_bundle) as (Hexit & Hevents & _).
  - repeat split; auto.
  - reflexivity.
  - split; [exact Hexit|]. rewrite Hevents. reflexivity.
Defined.

(** C8: a failed build.  When [clBuildProgram] answers an error [e], the run
    prints the error, asks the runtime for the size of the build log, fetches
    the log into a buffer of that size, prints the whole log, releases the
    program, the queue and the context, and returns 1.  (The log is a C
    string: it holds no NUL of its own.) *)
Theorem build_failure_prints_log w p e :
  ok_program w p ->
  build_status w p = e ->
  e <> CL_SUCCESS ->
  has_nul (build_log w p) = false ->
  exit_status (run w) = Some 1
  /\ events (run w)
     = queue_ready w ++
       [Call (clCreateProgramWithSource p) CL_SUCCESS;
        Call clBuildProgram e;
        Printf "Error building program: %d\n" [AInt e];
        Call (clGetProgramBuildInfo 0) CL_SUCCESS;
        Call (clGetProgramBuildInfo (S (String.length (build_log w p)))) CL_SUCCESS;
        Printf "Build log:\n%s\n" [AStr (build_log w p)];
        Release Program; Release Queue; Release Context].
Proof.
  intros Hprogram <- He Hlog. unfold queue_ready, device_probe.
  premises; explore; statuses; rewrite ?Hstatus, c_string_terminated by done;
    by repeat split.
Qed.

Lemma build_failure_prints_log_witness :
  exit_status (run build_refused) = Some 1
  /\ In (Printf "Build log:\n%s\n" [AStr "error: expected identifier"])
        (events (run build_refused)).
Proof.
  destruct (build_failure_prints_log build_refused kernel_path (-11))
    as (Hexit & Hevents).
  - repeat split; auto.
  - reflexivity.
  - discriminate.
  - reflexivity.
  - split; [exact Hexit|]. rewrite Hevents.
    apply in_or_app. right. simpl. auto 10.
Defined.

(** C4: a validation mismatch and the exit status.  A run that gets as far
    as the validation returns 0, whatever [validate] finds.  When every
    element is the square of its input the run prints "All values were
    properly squared!"; when [i] is the first index where it is not, the run
    prints the report of [validate] for [i] instead; in both cases the same
    releases follow and the status is 0. *)
Theorem validation_mismatch_exit_status w p :
  ok_read w p ->
  exit_status (run w) = Some 0
  /\ ((forall i, (i < NUM_VALUES)%nat ->
         squared_at input_data (output_data w) i = true) ->
      events (run w)
      = results_read w p
        ++ [Printf "All values were properly squared!\n" []] ++ teardown)
  /\ (forall i, (i < NUM_VALUES)%nat ->
        (forall j, (j < i)%nat ->
           squared_at input_data (output_data w) j = true) ->
        squared_at input_data (output_data w) i = false ->
        exists o x,
          output_data w !! i = Some o /\ input_data !! i = Some x
          /\ events (run w)
             = results_read w p ++ mismatch_report i o x ++ teardown).
Proof.
  intros Hread.
  unfold results_read, buffers_ready, queue_ready, device_probe, teardown.
  premises; explore; statuses; rewrite ?Hstatus; cbn [app].
  all: split; [reflexivity|split].
  all: try (intros _; reflexivity).
  all: try (intros i' Hi' _ Hno; rewrite Hsquared in Hno by done;
            discriminate Hno).
  all: try (intros Hall; rewrite Hall in Hmismatch by done;
            discriminate Hmismatch).
  all: intros i' Hi' Hbefore' Hno;
    assert (i' = i) as ->
      by (destruct (Nat.lt_trichotomy i' i) as [Hlt|[Heq|Hlt]];
          [rewrite (Hbefore i' Hlt) in Hno; discriminate Hno|done
          |rewrite (Hbefore' i Hlt) in Hmismatch; discriminate Hmismatch]);
    by exists o, x.
Qed.

Lemma validation_mismatch_exit_status_witness :
  exit_status (run corrupted_world) = Some 0
  /\ exists o x,
       events (run corrupted_world)
       = results_read corrupted_world kernel_path
         ++ mismatch_report 7 o x ++ teardown.
Proof.
  destruct (validation_mismatch_exit_status corrupted_world kernel_path)
    as (Hexit & _ & Hreport).
  - repeat split; auto.
  - split; [exact Hexit|].
    destruct (Hreport 7%nat) as (o & x & _ & _ & Hevents).
    + unfold NUM_VALUES. lia.
    + intros j Hj.
      do 7 (destruct j as [|j]; [vm_compute; reflexivity|]). lia.
    + vm_compute. reflexivity.
    + by exists o, x.
Defined.

(** C9: the argument binding.  In a run that has created both buffers, both
    [clSetKernelArg] calls are made, whatever the first one answers; the
    kernel is dispatched exactly when both answered [CL_SUCCESS]; otherwise
    the run prints the or of the two statuses, releases everything it holds
    and ends without dispatching the kernel. *)
Theorem argument_binding w p :
  ok_mem_out w p ->
  filter binding_call (events (run w))
  = [Call (clSetKernelArg 0 Mem_in) (set_arg_status w 0%nat);
     Call (clSetKernelArg 1 Mem_out) (set_arg_status w 1%nat)]
  /\ (filter dispatch_call (events (run w))
      = [Call (clEnqueueNDRangeKernel NUM_VALUES) (enqueue_status w)]
      <-> set_arg_status w 0%nat = CL_SUCCESS /\ set_arg_status w 1%nat = CL_SUCCESS)
  /\ (~ (set_arg_status w 0%nat = CL_SUCCESS /\ set_arg_status w 1%nat = CL_SUCCESS) ->
      filter dispatch_call (events (run w)) = []
      /\ events (run w)
         = buffers_ready w p ++
           [Call (clSetKernelArg 0 Mem_in) (set_arg_status w 0%nat);
            Call (clSetKernelArg 1 Mem_out) (set_arg_status w 1%nat);
            Printf "Error setting kernel arguments: %d\n"
                   [AInt (Z.lor (set_arg_status w 0%nat) (set_arg_status w 1%nat))]]
           ++ teardown).
Proof.
  intros Hbuffers. unfold buffers_ready, queue_ready, device_probe, teardown.
  premises; explore.
  all: match goal with
       | H : Z.eqb (Z.lor _ _) 0 = true |- _ =>
           apply Z.eqb_eq, Z.lor_eq_0_iff in H as [Ha Hb]; settle;
           (split; [reflexivity|]);
           (split; [split; [done|intros _; reflexivity]|]);
           intros Hn; by destruct Hn
       | H : Z.eqb (Z.lor _ _) 0 = false |- _ =>
           apply Z.eqb_neq in H; rewrite Z.lor_eq_0_iff in H; settle;
           (split; [reflexivity|]);
           (split; [split; [intros Heq; simpl in Heq; discriminate Heq
                           |intros Hboth; by destruct H]|]);
           intros _; split; reflexivity
       end.
Qed.

Lemma argument_binding_witness :
  filter dispatch_call (events (run binding_refused)) = []
  /\ filter dispatch_call (events (run nominal))
     = [Call (clEnqueueNDRangeKernel NUM_VALUES) 0].
Proof.
  split.
  - destruct (argument_binding binding_refused kernel_path) as (_ & _ & H).
    + repeat split; auto.
    + apply H. intros [_ [=]].
  - destruct (argument_binding nominal kernel_path) as (_ & H & _).
    + repeat split; auto.
    + apply H. split; reflexivity.
Defined.

(** C5: releases.  In every run, an object that was created with success is
    released exactly once, and an object that was not created is not
    released at all.  In the runs that create all six objects, the releases
    come in the order input buffer, output buffer, kernel, program, queue,
    context. *)
Theorem resources_released_once w :
  (forall r,
      release_count r (events (run w))
      = if bool_decide (r ∈ created (events (run w))) then 1%nat else 0%nat)
  /\ (created (events (run w)) = [Context; Queue; Program; Kernel; Mem_in; Mem_out] ->
      released (events (run w)) = [Mem_in; Mem_out; Kernel; Program; Queue; Context]).
Proof.
  explore; settle.
  all: unfold created, release_count, released, CL_SUCCESS;
    repeat (simpl; failures).
  all: split; [intros r; destruct r; reflexivity|].
  all: intros Hall; try discriminate Hall; reflexivity.
Qed.

Lemma resources_released_once_witness :
  released (events (run nominal)) = [Mem_in; Mem_out; Kernel; Program; Queue; Context]
  /\ released (events (run corrupted_world))
     = [Mem_in; Mem_out; Kernel; Program; Queue; Context].
Proof.
  split.
  - apply (resources_released_once nominal). vm_compute. reflexivity.
  - apply (resources_released_once corrupted_world). vm_compute. reflexivity.
Defined.

Ltac find_event :=
  cbn [In message message_args]; repeat first [left; reflexivity | right].

(** C1, as the code has it: when a step fails with the status [e], the run
    prints the diagnostic of that step, and the diagnostic carries [e],
    except that the one for the device lookup ("No OpenCL devices found")
    carries no code.  For the steps up to the creation of the kernel the run
    then returns 1. *)
Theorem failure_is_diagnosed w st e :
  failure w st e ->
  In (Printf (message st) (message_args st e)) (events (run w))
  /\ (returns_from_branch st = true -> exit_status (run w) = Some 1).
Proof.
  intros [He H].
  destruct st; cbn [failure returns_from_branch] in *;
    premises; subst e; premises; explore; settle;
    (split; [find_event|first [intros _; reflexivity|intros [=]]]).
Qed.

Lemma failure_is_diagnosed_witness :
  In (Printf "Error building program: %d\n" [AInt (-11)])
     (events (run build_refused))
  /\ exit_status (run build_refused) = Some 1.
Proof.
  destruct (failure_is_diagnosed build_refused Program_build (-11)) as [Hin Hexit].
  - split; [discriminate|]. exists kernel_path. repeat split; auto.
  - split; [exact Hin|]. apply Hexit. reflexivity.
Defined.

(** C1 as it is written fails twice.  When the input buffer cannot be
    created the run returns 0, not 1; and when no device is found the run
    prints no error code at all. *)
Lemma failure_exit_status_counterexample :
  (failure input_buffer_refused Input_buffer_creation (-61)
   /\ exit_status (run input_buffer_refused) = Some 0)
  /\ (failure no_device Device_lookup (-1)
      /\ codes_printed (events (run no_device)) = []).
Proof.
  split; split.
  - split; [discriminate|]. exists kernel_path. repeat split; auto.
  - vm_compute. reflexivity.
  - split; [discriminate|]. repeat split; auto.
  - vm_compute. reflexivity.
Qed.

(** ** The kernel source *)

(** Whatever the world, a string handed to [clCreateProgramWithSource] is the
    string that [getBundleResourcePath] returned: the path of [kernel.cl].
    The file system is never consulted. *)
Lemma source_compiled_is_the_path w src :
  In src (sources_compiled (events (run w))) ->
  getBundleResourcePath w "kernel.cl" = Some src.
Proof.
  explore; settle; unfold sources_compiled; simpl; intros Hin;
    repeat destruct Hin as [<-|Hin]; done.
Qed.

(** C2 at a world where the bundle holds the kernel of the specification and
    the runtime compiles that kernel and nothing else: [main] hands the path
    of [kernel.cl] to [clCreateProgramWithSource], not the text of the file;
    the build of the path fails and the run returns 1. *)
Theorem path_compiled_instead_of_source :
  getBundleResourcePath strict_world "kernel.cl" = Some kernel_path
  /\ file_text strict_world kernel_path = Some kernel_text
  /\ sources_compiled (events (run strict_world)) = [kernel_path]
  /\ kernel_path <> kernel_text
  /\ build_status strict_world kernel_text = CL_SUCCESS
  /\ In (Call clBuildProgram (-11)) (events (run strict_world))
  /\ exit_status (run strict_world) = Some 1.
Proof.
  split; [vm_compute; reflexivity|].
  split; [vm_compute; reflexivity|].
  split; [vm_compute; reflexivity|].
  split; [discriminate|].
  split; [vm_compute; reflexivity|].
  split; [vm_compute; auto 10|vm_compute; reflexivity].
Qed.

(** * More about [main] *)

(** The statuses found equal to 0 on the way, as equations. *)
Ltac successes :=
  repeat match goal with
         | H : Z.eqb (Z.lor _ _) 0 = true |- _ =>
             apply Z.eqb_eq, Z.lor_eq_0_iff in H; destruct H
         | H : Z.eqb ?e 0 = true |- _ => apply Z.eqb_eq in H
         end.

(** Where the run has got to, from the statuses found on the way. *)
Ltac reached :=
  successes;
  unfold ok_read, ok_dispatch, ok_args, ok_mem_out, ok_mem_in, ok_kernel,
    ok_build, ok_program, ok_source, ok_queue, ok_context, ok_device,
    ok_platform, CL_SUCCESS;
  repeat split; eauto.

(** A premise that the statuses found on the way contradict. *)
Ltac unreached :=
  premises;
  repeat match goal with
         | H : Z.eqb (Z.lor ?a ?b) 0 = false,
           Ha : Z.eqb ?a 0 = true, Hb : Z.eqb ?b 0 = true |- _ =>
             apply Z.eqb_eq in Ha, Hb; rewrite Ha, Hb in H; discriminate H
         end;
  congruence.

(** The exit status tells whether the kernel was created, and nothing else:
    a run returns 0 exactly when every step up to and including
    [clCreateKernel] succeeded, whatever happens afterwards, and 1
    otherwise. *)
Theorem exit_status_0_iff_kernel_created w :
  (exit_status (run w) = Some 0 <-> exists p, ok_kernel w p)
  /\ (exit_status (run w) = Some 1 <-> ~ exists p, ok_kernel w p).
Proof.
  explore.
  all: first
    [ assert (exists p, ok_kernel w p) as Hk by (eexists; solve [reached]);
      (split; split; [done|intros _; reflexivity|intros [=]|intros Hn; by destruct Hn])
    | assert (~ exists p, ok_kernel w p) as Hn by (intros Hok; unreached);
      (split; split; [intros [=]|intros Hok; by destruct Hn|done|intros _; reflexivity]) ].
Qed.



(** The check of the lifetimes is no formality: it refuses a release of
    what is not live, a second release, a call on a released object, and an
    object left live. *)
Lemma lifetimes_ok_refuses :
  lifetimes_ok [] [Release Context] = false
  /\ lifetimes_ok [] [Call clCreateContext 0; Release Context; Release Context]
     = false
  /\ lifetimes_ok [] [Call clCreateContext 0; Release Context;
                      Call clCreateCommandQueue 0; Release Queue] = false
  /\ lifetimes_ok [] [Call clCreateContext 0] = false.
Proof. by vm_compute. Qed.

(** The lifetimes of the OpenCL objects are respected in every run: a call
    is only handed objects that were created with success and are not yet
    released, nothing is released that is not live, and nothing is live when
    [main] returns. *)
Theorem lifetimes_respected w : lifetimes_ok [] (events (run w)) = true.
Proof.
  explore; settle.
  all: repeat (simpl; unfold CL_SUCCESS; failures); reflexivity.
Qed.

(** The success line is printed in the runs that got through the read-back
    and found every element squared, and in no other run. *)
Theorem success_line_iff w :
  In success_line (events (run w))
  <-> exists p, ok_read w p
                /\ forall i, (i < NUM_VALUES)%nat ->
                             squared_at input_data (output_data w) i = true.
Proof.
  unfold success_line. explore.
  all: first
    [ (* the run that prints it *)
      assert (exists p, ok_read w p) as [p Hp] by (eexists; solve [reached]);
      split; [intros _; by exists p|intros _; find_event]
    | (* a mismatch *)
      split;
      [ intros Hin; cbn [In] in Hin;
        repeat (destruct Hin as [Hin|Hin]; [discriminate Hin|]); destruct Hin
      | intros (p & _ & Hall); rewrite Hall in Hmismatch by done;
        discriminate Hmismatch ]
    | (* a failure *)
      split;
      [ intros Hin; cbn [In] in Hin;
        repeat (destruct Hin as [Hin|Hin]; [discriminate Hin|]); destruct Hin
      | intros (p & Hok & _); unreached ] ].
Qed.

(** ** The arithmetic of the expected values *)

Lemma input_data_lookup i :
  (i < NUM_VALUES)%nat -> input_data !! i = Some (of_int (Z.of_nat i)).
Proof.
  intros Hi. unfold input_data.
  by rewrite list_lookup_fmap, lookup_seq_lt.
Qed.

Lemma output_data_lookup w i :
  (i < NUM_VALUES)%nat -> output_data w !! i = Some (device_result w i).
Proof.
  intros Hi. unfold output_data.
  by rewrite list_lookup_fmap, lookup_seq_lt.
Qed.

(** For every [i] below [NUM_VALUES] the float product [(float)i * (float)i]
    is the integer [i * i], without rounding, and it compares equal to
    itself (it is no NaN). *)
Lemma product_exact i :
  (i < NUM_VALUES)%nat ->
  mul (of_int (Z.of_nat i)) (of_int (Z.of_nat i))
  = of_int (Z.of_nat i * Z.of_nat i)
  /\ eqb (of_int (Z.of_nat i * Z.of_nat i))
         (mul (of_int (Z.of_nat i)) (of_int (Z.of_nat i))) = true.
Proof.
  intros Hi.
  assert (forallb (fun i =>
            bool_decide (mul (of_int (Z.of_nat i)) (of_int (Z.of_nat i))
                         = of_int (Z.of_nat i * Z.of_nat i))
            && eqb (of_int (Z.of_nat i * Z.of_nat i))
                   (mul (of_int (Z.of_nat i)) (of_int (Z.of_nat i))))
            (seq 0 NUM_VALUES) = true) as Hall by (vm_compute; reflexivity).
  rewrite forallb_forall in Hall.
  destruct (andb_prop _ _ (Hall i ltac:(apply in_seq; lia))) as [Heq Hsame].
  by apply bool_decide_eq_true in Heq.
Qed.

(** End to end on a device that squares: when every call succeeds and the
    device returns [i * i] for every [i], the validation passes; the run
    prints the success line, releases everything and returns 0. *)
Theorem squaring_device_passes w p :
  ok_read w p ->
  (forall i, (i < NUM_VALUES)%nat ->
             device_result w i = of_int (Z.of_nat i * Z.of_nat i)) ->
  exit_status (run w) = Some 0
  /\ events (run w) = results_read w p ++ [success_line] ++ teardown.
Proof.
  intros Hread Hdevice.
  unfold results_read, buffers_ready, queue_ready, device_probe, teardown,
    success_line.
  premises; explore; settle.
  all: try by split.
  all: exfalso; revert Hmismatch; unfold squared_at;
    rewrite output_data_lookup, input_data_lookup, Hdevice by done;
    destruct (product_exact i Hi) as [_ ->]; discriminate.
Qed.

Lemma squaring_device_passes_witness :
  exit_status (run nominal) = Some 0
  /\ In success_line (events (run nominal)).
Proof.
  destruct (squaring_device_passes nominal kernel_path) as [Hexit Hevents].
  - repeat split; auto.
  - intros i _. reflexivity.
  - split; [exact Hexit|]. rewrite Hevents.
    apply in_or_app. right. left. reflexivity.
Defined.

(** * More about [validate] *)



(** [validate] stops at the first mismatch.  Whatever the heap, a call ends
    in one of three ways: it returns 1 and has printed nothing; it returns 0
    and has printed the report for one index below [NUM_VALUES], and nothing
    else; or it has read outside an array and has printed nothing. *)
Theorem validate_reports_at_most_once input output s :
  validate input output s = (Return 1, s)
  \/ (exists i o x,
        (i < NUM_VALUES)%nat
        /\ validate input output s = (Return 0, log (mismatch_report i o x) s))
  \/ validate input output s = (Undefined, s).
Proof.
  unfold validate.
  assert (forall range,
    for_each range (validate_iteration input output) s = (Val tt, s)
    \/ (exists i o x, In i range /\
          for_each range (validate_iteration input output) s
          = (Return 0, log (mismatch_report i o x) s))
    \/ for_each range (validate_iteration input output) s = (Undefined, s))
    as Hloop.
  { induction range as [|i range IH]; [by left|].
    cbn [for_each]. unfold bind.
    destruct (iteration_cases input output i s) as [->|[(o & x & ->)| ->]].
    - destruct IH as [->|[(j & o & x & Hj & ->)| ->]]; [by left| |by right; right].
      right; left. exists j, o, x. split; [by right|done].
    - right; left. exists i, o, x. split; [by left|done].
    - by right; right. }
  unfold bind.
  destruct (Hloop (seq 0 NUM_VALUES)) as [->|[(i & o & x & Hi & ->)| ->]].
  - by left.
  - right; left. exists i, o, x. split; [|done]. apply in_seq in Hi. lia.
  - by right; right.
Qed.

(** Exact comparison and NaN: an output element that is a NaN never passes,
    whatever the input; [validate] returns 0. *)
Theorem validate_rejects_nan input output a b s i :
  heap s !! input = Some a -> heap s !! output = Some b ->
  length a = NUM_VALUES -> length b = NUM_VALUES ->
  b !! i = Some (S754_nan : cl_float) ->
  fst (validate input output s) = Return 0.
Proof.
  intros Hin Hout Ha Hb Hnan.
  assert (squared_at a b i = false) as Hi.
  { unfold squared_at. rewrite Hnan. by destruct (a !! i). }
  destruct (squared_or_first_mismatch a b) as [Hok|(j & Hj & Hbefore & Hno)].
  - rewrite Hok in Hi; [done|]. apply lookup_lt_Some in Hnan. lia.
  - destruct (validate_fails_at input output a b s Hin Hout Ha Hb j Hj Hbefore Hno)
      as (o & x & _ & _ & ->).
    reflexivity.
Qed.

Lemma validate_rejects_nan_witness :
  fst (validate 0%nat 1%nat (two_arrays input_data (<[3%nat := (S754_nan : cl_float)]> input_data)))
  = Return 0.
Proof.
  apply (validate_rejects_nan 0%nat 1%nat input_data
           (<[3%nat := (S754_nan : cl_float)]> input_data) _ 3%nat).
  - unfold two_arrays; cbn [heap].
    rewrite lookup_insert_ne by discriminate. apply lookup_insert_eq.
  - unfold two_arrays; cbn [heap]. apply lookup_insert_eq.
  - vm_compute. reflexivity.
  - vm_compute. reflexivity.
  - vm_compute. reflexivity.
Defined.



(** * What [main] does not look at *)



(** * The loop that fills [test_in] (main.c, lines 153-155) *)

Lemma bind_ret_r {A} (m : M A) s : bind m ret s = m s.
Proof. unfold bind, ret. by destruct (m s) as [[]]. Qed.

(** On a block with room for [n] floats the loop writes [(float)i] at every
    index [i] below [n], whatever was there; it leaves the rest of the
    block, the other blocks and the events as they were. *)
Theorem fill_loop_writes_every_index p n s block :
  heap s !! p = Some block ->
  (n <= length block)%nat ->
  for_each (seq 0 n) (fun i => store p i (of_int (Z.of_nat i))) s
  = (Val tt,
     set_heap (<[p := map (fun i => of_int (Z.of_nat i)) (seq 0 n)
                       ++ drop n block]> (heap s)) s).
Proof.
  intros Hp Hn.
  rewrite <- bind_ret_r.
  rewrite (run_store_loop p _ _ _ s block Hp).
  - by rewrite fill_seq.
  - apply Forall_forall. intros i Hi%list_elem_of_In%in_seq. lia.
Qed.

Lemma fill_loop_writes_every_index_witness :
  fst (for_each (seq 0 2) (fun i => store 0%nat i (of_int (Z.of_nat i)))
         (two_arrays [of_int 7; of_int 7; of_int 7] []))
  = Val tt.
Proof.
  rewrite (fill_loop_writes_every_index 0%nat 2
             (two_arrays [of_int 7; of_int 7; of_int 7] [])
             [of_int 7; of_int 7; of_int 7]).
  - reflexivity.
  - unfold two_arrays; cbn [heap].
    rewrite lookup_insert_ne by discriminate. apply lookup_insert_eq.
  - simpl. lia.
Defined.

(** * [getBundleResourcePath] and what it holds *)

(** On each of its three paths [getBundleResourcePath] releases the
    CoreFoundation string once, and the URL once if it got one; it allocates
    the path buffer only once it has the URL, frees it when the conversion
    fails, and hands it to the caller, not freed, when it returns a path.
    Its result is that of the function without the calls. *)
Theorem getBundleResourcePath_balanced w filename :
  let evs := fst (getBundleResourcePath_calls w filename) in
  let r := snd (getBundleResourcePath_calls w filename) in
  r = getBundleResourcePath w filename
  /\ cf_count (is_release CfFilename) evs = 1%nat
  /\ cf_count (is_release FileURL) evs
     = match bundle_resource_url w filename with Some _ => 1 | None => 0 end%nat
  /\ cf_count is_malloc evs
     = match bundle_resource_url w filename with Some _ => 1 | None => 0 end%nat
  /\ cf_count is_free evs
     = match r with Some _ => 0 | None => cf_count is_malloc evs end%nat.
Proof.
  unfold getBundleResourcePath_calls, getBundleResourcePath.
  destruct (bundle_resource_url w filename) as [url|];
    [destruct (url_file_system_path w url) as [path|]|];
    cbn [fst snd app]; repeat split; reflexivity.
Qed.
